(** * LC-3 virtual machine (src/lc3.c): shallow embedding and properties

    The C file declares the register file, the memory array, the opcode
    and flag enumerations, and [main]: argument handling, boot values and
    the fetch/decode loop.  The body of every [case] of the switch is a
    comment ([// @{ADD}], ..., [// @{BAD OPCODE}]) followed by [break],
    and the embedding takes the loop as it stands.  The helpers
    [mem_read] and [read_image] are called but not defined in the file;
    [read_image] and the terminal are parameters, and the definitions
    modelled from the spec say so in their comments. *)

From Stdlib Require Import ZArith Lia Bool String Ascii.
From stdpp Require Import base tactics option list.

Local Open Scope Z_scope.

(** ** Enumerations and constants of src/lc3.c *)

Module Reg.
(** [enum { R_R0 = 0, ..., R_R7, R_PC, R_COND, R_COUNT }] *)
Definition R_R0 : Z := 0.
Definition R_R1 : Z := 1.
Definition R_R2 : Z := 2.
Definition R_R3 : Z := 3.
Definition R_R4 : Z := 4.
Definition R_R5 : Z := 5.
Definition R_R6 : Z := 6.
Definition R_R7 : Z := 7.
Definition R_PC : Z := 8.
Definition R_COND : Z := 9.
Definition R_COUNT : Z := 10.
End Reg.
Export Reg.

Module Flag.
(** [enum { FL_POS = 1 << 0, FL_ZRO = 1 << 1, FL_NEG = 1 << 2 }] *)
Definition FL_POS : Z := Z.shiftl 1 0.
Definition FL_ZRO : Z := Z.shiftl 1 1.
Definition FL_NEG : Z := Z.shiftl 1 2.
End Flag.
Export Flag.

(** [#define MEMORY_MAX (1 << 16)] *)
Definition MEMORY_MAX : Z := Z.shiftl 1 16.

Module Op.
(** The opcode enumeration, in declaration order starting at 0. *)
Definition OP_BR : Z := 0.
Definition OP_ADD : Z := 1.
Definition OP_LD : Z := 2.
Definition OP_ST : Z := 3.
Definition OP_JSR : Z := 4.
Definition OP_AND : Z := 5.
Definition OP_LDR : Z := 6.
Definition OP_STR : Z := 7.
Definition OP_RTI : Z := 8.
Definition OP_NOT : Z := 9.
Definition OP_LDI : Z := 10.
Definition OP_STI : Z := 11.
Definition OP_JMP : Z := 12.
Definition OP_RES : Z := 13.
Definition OP_LEA : Z := 14.
Definition OP_TRAP : Z := 15.
End Op.
Export Op.

(** [enum { PC_START = 0x3000 }] inside [main]. *)
Definition PC_START : Z := 0x3000.

(** ** 16-bit machine values

    [uint16_t] is modelled as a [Z] in [0, 2^16); storing the result of a
    wider computation into a [uint16_t] reduces it modulo 2^16. *)

Definition word16 (v : Z) : Prop := 0 <= v < 65536.

Definition wrap16 (v : Z) : Z := v mod 65536.

#[global] Instance word16_dec v : Decision (word16 v).
Proof. unfold word16. apply _. Defined.

(** Modelled from the spec: [sign_extend] is not defined in src/lc3.c.
    Section 4.3 has it replicate the sign bit of a [bit_count]-wide field
    into the higher positions of the 16-bit word, and section 8 fixes the
    two cases: bit [bit_count-1] clear leaves the value as it is, set
    turns on every bit above it. *)
Definition sign_extend (x : Z) (bit_count : Z) : Z :=
  if Z.testbit x (bit_count - 1)
  then Z.lor x (wrap16 (Z.shiftl 0xFFFF bit_count))
  else x.

(** Value of a [b]-bit field read as a two's-complement number, and of a
    16-bit word read the same way. *)
Definition signed (b : Z) (v : Z) : Z :=
  if Z.testbit v (b - 1) then v - 2 ^ b else v.

(** ** External collaborators

    [main] calls [read_image], and the terminal is reached through the C
    library.  Neither is defined in src/lc3.c; the spec (section 6) lists
    them as collaborators with the interface below.  The two
    device-register addresses, which the spec mentions without fixing
    them, are fields of the same interface. *)
Class Host (T : Type) := {
  (** non-blocking poll of the keyboard *)
  key_available : T -> bool;
  (** blocking read of one character *)
  read_char : T -> Z * T;
  (** write of one character *)
  write_char : Z -> T -> T;
  (** image loader: [None] when the file cannot be opened or parsed *)
  read_image : string -> list Z -> option (list Z);
  read_image_length : forall p m m',
    read_image p m = Some m' -> length m' = length m;
  read_image_word16 : forall p m m',
    read_image p m = Some m' -> Forall word16 m -> Forall word16 m';
  (** keyboard status and data registers *)
  MR_KBSR : Z;
  MR_KBDR : Z;
  MR_KBSR_word16 : word16 MR_KBSR;
  MR_KBDR_word16 : word16 MR_KBDR
}.

(** [printf] of a literal: one [write_char] per character. *)
Fixpoint print {T} `{Host T} (msg : string) (t : T) : T :=
  match msg with
  | EmptyString => t
  | String c rest => print rest (write_char (Z.of_N (N_of_ascii c)) t)
  end.

(** ** Machine state *)

(** Modelled from the spec: the two kinds of fatal decode condition of
    section 7; no statement of src/lc3.c produces one. *)
Inductive fatal : Type :=
  | BadOpcode (op : Z)
  | BadTrap (vector : Z).

(** [reg] and [memory] are the two global arrays, [running] the local of
    [main] and [term] the state of the terminal.  [fault] is where a
    fatal decode condition would be recorded; no statement of src/lc3.c
    assigns it, as none assigns [running] after its initialisation. *)
Record machine (T : Type) : Type := Machine {
  reg : list Z;
  memory : list Z;
  running : bool;
  fault : option fatal;
  term : T
}.
Arguments Machine {T} _ _ _ _ _.
Arguments reg {T} _.
Arguments memory {T} _.
Arguments running {T} _.
Arguments fault {T} _.
Arguments term {T} _.

Definition set_reg {T} (r : list Z) (s : machine T) : machine T :=
  Machine r (memory s) (running s) (fault s) (term s).
Definition set_memory {T} (m : list Z) (s : machine T) : machine T :=
  Machine (reg s) m (running s) (fault s) (term s).
Definition set_term {T} (t : T) (s : machine T) : machine T :=
  Machine (reg s) (memory s) (running s) (fault s) t.

(** C array accesses.  An index outside the array is undefined behaviour
    in C and [None] here. *)
Definition array_get (a : list Z) (i : Z) : option Z :=
  if 0 <=? i then a !! Z.to_nat i else None.

Definition array_set (a : list Z) (i v : Z) : option (list Z) :=
  if (0 <=? i) && (i <? Z.of_nat (length a))
  then Some (<[Z.to_nat i := v]> a)
  else None.

(** ** The machine monad: state passing, [None] for undefined behaviour *)

Definition M (T A : Type) : Type := machine T -> option (A * machine T).

#[global] Instance M_ret {T} : MRet (M T) :=
  fun A (a : A) s => Some (a, s).
#[global] Instance M_bind {T} : MBind (M T) :=
  fun A B (k : A -> M T B) (c : M T A) s =>
    match c s with
    | Some (a, s') => k a s'
    | None => None
    end.

(** [reg[r]] as an rvalue, and [reg[r] = v]: the array holds [uint16_t],
    so the value stored is [v] reduced modulo 2^16. *)
Definition reg_read {T} (r : Z) : M T Z :=
  fun s => match array_get (reg s) r with
           | Some v => Some (v, s)
           | None => None
           end.

Definition reg_write {T} (r v : Z) : M T unit :=
  fun s => match array_set (reg s) r (wrap16 v) with
           | Some regs => Some (tt, set_reg regs s)
           | None => None
           end.

(** [memory[a]] as an rvalue. *)
Definition cell_read {T} (a : Z) : M T Z :=
  fun s => match array_get (memory s) a with
           | Some v => Some (v, s)
           | None => None
           end.

(** Modelled from the spec: [mem_write] is not defined in src/lc3.c.
    Section 4.2: stores verbatim, no validation. *)
Definition mem_write {T} (address val : Z) : M T unit :=
  fun s => match array_set (memory s) address val with
           | Some cells => Some (tt, set_memory cells s)
           | None => None
           end.

(** The calls on the terminal collaborator that [mem_read] makes, as
    computations: poll and blocking read. *)
Definition poll_key {T} `{Host T} : M T bool :=
  fun s => Some (key_available (term s), s).

Definition getchar {T} `{Host T} : M T Z :=
  fun s => let '(c, t) := read_char (term s) in Some (c, set_term t s).

(** Modelled from the spec: [mem_read] is called by [main] but not
    defined in src/lc3.c.  Section 4.2: a read of the keyboard-status
    address first polls the terminal; if a key is available its code goes
    into the data-register cell and the status bit (bit 15) is set; the
    status cell is returned.  With no key the bit is cleared, so that the
    status read reflects availability at the moment of the read
    (section 3).  Any other address returns the stored cell. *)
Definition mem_read {T} `{Host T} (address : Z) : M T Z :=
  if address =? MR_KBSR then
    avail ← poll_key;
    (if avail : bool then
       c ← getchar;
       mem_write MR_KBDR (wrap16 c);;
       status ← cell_read MR_KBSR;
       mem_write MR_KBSR (Z.lor status (Z.shiftl 1 15))
     else
       status ← cell_read MR_KBSR;
       mem_write MR_KBSR (Z.land status (Z.ones 15)));;
    cell_read address
  else cell_read address.

(** ** Instruction fields

    Only the opcode is extracted in src/lc3.c.  The trap vector and the
    vector numbers are here to name, in the statements, the instruction
    words the spec calls traps. *)

(** [uint16_t op = instr >> 12;] in [main]. *)
Definition opcode_of (instr : Z) : Z := Z.shiftr instr 12.


(** Modelled from the spec: the trap vectors of section 4.5; src/lc3.c
    declares none. *)
Module Trap.
End Trap.
Export Trap.

(** ** The loop of [main] *)

(** The branches of [switch (op)], in the order of the source.  The
    labels [case OP_RES:], [case OP_RTI:] and [default:] mark one and the
    same branch. *)
Inductive branch : Type :=
  | CASE_ADD | CASE_AND | CASE_NOT | CASE_BR | CASE_JMP | CASE_JSR
  | CASE_LD | CASE_LDI | CASE_LDR | CASE_LEA | CASE_ST | CASE_STI
  | CASE_STR | CASE_TRAP | CASE_DEFAULT.

Definition switch (op : Z) : branch :=
  if op =? OP_ADD then CASE_ADD
  else if op =? OP_AND then CASE_AND
  else if op =? OP_NOT then CASE_NOT
  else if op =? OP_BR then CASE_BR
  else if op =? OP_JMP then CASE_JMP
  else if op =? OP_JSR then CASE_JSR
  else if op =? OP_LD then CASE_LD
  else if op =? OP_LDI then CASE_LDI
  else if op =? OP_LDR then CASE_LDR
  else if op =? OP_LEA then CASE_LEA
  else if op =? OP_ST then CASE_ST
  else if op =? OP_STI then CASE_STI
  else if op =? OP_STR then CASE_STR
  else if op =? OP_TRAP then CASE_TRAP
  else CASE_DEFAULT.

(** [uint16_t instr = mem_read(reg[R_PC]++);]: the argument is the old
    value of the PC register, which is incremented before the call. *)
Definition fetch {T} `{Host T} : M T Z :=
  pc ← reg_read R_PC;
  reg_write R_PC (wrap16 (pc + 1));;
  mem_read pc.

Inductive outcome (T : Type) : Type :=
  | Finished (s : machine T)
  | OutOfFuel (s : machine T)
  | Undefined.
Arguments Finished {T} _.
Arguments OutOfFuel {T} _.
Arguments Undefined {T}.

(** ** [main] *)

(** The two global arrays before [main] runs: all zero. *)
Definition reg_zero : list Z := replicate (Z.to_nat R_COUNT) 0.
Definition memory_zero : list Z := replicate (Z.to_nat MEMORY_MAX) 0.

(** [for (int j = 1; j < argc; ++j) if (!read_image(argv[j])) ...]:
    the first path that fails to load, or the memory after all loads. *)
Fixpoint load_images {T} `{Host T} (paths : list string) (m : list Z)
  : string + list Z :=
  match paths with
  | [] => inr m
  | p :: rest =>
      match read_image p m with
      | Some m' => load_images rest m'
      | None => inl p
      end
  end.

(** The assignments of [main] between the loads and the loop:
    [reg[R_COND] = FL_ZRO; reg[R_PC] = PC_START; int running = 1;]. *)
Definition boot {T} (m : list Z) (t : T) : machine T :=
  Machine (<[Z.to_nat R_PC := PC_START]> (<[Z.to_nat R_COND := FL_ZRO]> reg_zero))
          m true None t.

(** How the process ends: [exit(status)] or return from [main], with the
    terminal as the process left it. *)
Record exit_report (T : Type) : Type := Exit {
  status : Z;
  console : T
}.
Arguments Exit {T} _ _.
Arguments status {T} _.
Arguments console {T} _.

Definition newline : string := String (ascii_of_nat 10) EmptyString.

(** [printf("lc3 [image-file1] ...\n")] *)
Definition usage_text : string := ("lc3 [image-file1] ..." ++ newline)%string.

(** [printf("failed to load image: %s\n", argv[j])] *)
Definition load_failure_text (path : string) : string :=
  ("failed to load image: " ++ path ++ newline)%string.

(** [main] up to the loop: either the process has exited, or the machine
    is ready to run.  [signal] and [disable_input_buffering] set up the
    host terminal and touch neither array. *)
Definition startup {T} `{Host T} (argv : list string) (t : T)
  : exit_report T + machine T :=
  if Z.of_nat (length argv) <? 2 then
    inl (Exit 2 (print usage_text t))
  else
    match load_images (drop 1 argv) memory_zero with
    | inl path => inl (Exit 1 (print (load_failure_text path) t))
    | inr m => inr (boot m t)
    end.

Inductive process (T : Type) : Type :=
  | Exited (e : exit_report T)
  | StillRunning (s : machine T)
  | Crashed.
Arguments Exited {T} _.
Arguments StillRunning {T} _.
Arguments Crashed {T}.

(** ** Well-formed states *)

Definition wf {T} (s : machine T) : Prop :=
  length (reg s) = Z.to_nat R_COUNT /\
  length (memory s) = Z.to_nat MEMORY_MAX /\
  Forall word16 (reg s) /\
  Forall word16 (memory s).

(** Total getters for statements: the value of a register or cell, 0
    outside the array. *)
Definition regv {T} (s : machine T) (r : Z) : Z :=
  default 0 (array_get (reg s) r).
Definition cellv {T} (s : machine T) (a : Z) : Z :=
  default 0 (array_get (memory s) a).

#[global] Instance wf_dec {T} (s : machine T) : Decision (wf s).
Proof. unfold wf. apply _. Defined.

(** ** Total correctness of a computation

    [wp c Q s]: from [s] the computation [c] has defined behaviour and
    its result and final state satisfy [Q]. *)
Definition wp {T A} (c : M T A) (Q : A -> machine T -> Prop) (s : machine T)
  : Prop :=
  match c s with
  | Some (a, s') => Q a s'
  | None => False
  end.

(** Whether a flag bit is set in a COND value, as a C test
    [cond & flag] reads it. *)
Definition flag_set (cond flag : Z) : bool := negb (Z.land cond flag =? 0).


(** ** Vocabulary of the statements *)

Definition set_pc {T} (s : machine T) (target : Z) : machine T :=
  set_reg (<[Z.to_nat R_PC := target]> (reg s)) s.

Definition store {T} (s : machine T) (address v : Z) : machine T :=
  set_memory (<[Z.to_nat address := v]> (memory s)) s.

(** What [mem_read a] does from [s]: it returns [v] and leaves [s'].  The
    registers, the loop flag and the fault are untouched, [v] is the
    cell at [a] afterwards, and away from the status address nothing
    changes at all. *)
Definition read_effect {T} `{Host T} (a : Z) (s : machine T) (v : Z)
  (s' : machine T) : Prop :=
  mem_read a s = Some (v, s') /\
  wf s' /\ word16 v /\ reg s' = reg s /\ running s' = running s /\
  fault s' = fault s /\ v = cellv s' a /\
  (a <> MR_KBSR -> s' = s).


(** ** A list-backed host

    A terminal with a queue of pending keys and the characters written so
    far, and a loader over an in-memory file table.  It instantiates
    [Host] so that the machine can be run on concrete inputs. *)
Module Demo.

Record tty : Type := Tty {
  keys : list Z;
  screen : list Z
}.

(** An image file: a big-endian origin word followed by big-endian
    content words (spec section 6). *)
Fixpoint words_of_bytes (bs : list Z) : list Z :=
  match bs with
  | hi :: lo :: rest => wrap16 (hi * 256 + lo) :: words_of_bytes rest
  | _ => []
  end.

Definition load_bytes (bs : list Z) (m : list Z) : option (list Z) :=
  match words_of_bytes bs with
  | origin :: content => Some (list_inserts (Z.to_nat origin) content m)
  | [] => None
  end.

(** [LEA R0, msg; TRAP PUTS; TRAP HALT; msg: "Hi", 0] at 0x3000. *)
Definition hello_obj : list Z :=
  [0x30; 0x00; 0xE0; 0x02; 0xF0; 0x22; 0xF0; 0x25;
   0x00; 0x48; 0x00; 0x69; 0x00; 0x00].

(** A single reserved-opcode word at 0x3000. *)
Definition reserved_obj : list Z := [0x30; 0x00; 0xD0; 0x00].

(** A single TRAP HALT at 0x3000. *)
Definition halt_obj : list Z := [0x30; 0x00; 0xF0; 0x25].

Definition files : list (string * list Z) :=
  [("hello.obj"%string, hello_obj); ("reserved.obj"%string, reserved_obj);
   ("halt.obj"%string, halt_obj)].

Fixpoint find_file (path : string) (fs : list (string * list Z))
  : option (list Z) :=
  match fs with
  | [] => None
  | (name, bs) :: rest =>
      if String.eqb name path then Some bs else find_file path rest
  end.

Definition demo_read_image (path : string) (m : list Z) : option (list Z) :=
  match find_file path files with
  | Some bs => load_bytes bs m
  | None => None
  end.

#[global, refine] Instance host : Host tty := {|
  key_available t := match keys t with [] => false | _ => true end;
  read_char t :=
    match keys t with
    | [] => (0, t)
    | k :: rest => (k, Tty rest (screen t))
    end;
  write_char c t := Tty (keys t) (screen t ++ [c]);
  read_image := demo_read_image;
  MR_KBSR := 0xFE00;
  MR_KBDR := 0xFE02
|}.
Proof.
  - intros p m m'. unfold demo_read_image, load_bytes.
    destruct (find_file p files); [|discriminate].
    destruct (words_of_bytes l); [discriminate|].
    intros [= <-]. apply length_inserts.
  - intros p m m'. unfold demo_read_image, load_bytes.
    destruct (find_file p files) as [bs|]; [|discriminate].
    assert (Hw : Forall word16 (words_of_bytes bs)).
    { clear. assert (Hn : forall n l, (length l <= n)%nat ->
                                   Forall word16 (words_of_bytes l)).
      { induction n as [|n IH]; intros [|hi [|lo rest]] Hl; simpl in *;
          try constructor; try lia.
        - unfold word16, wrap16. apply Z.mod_pos_bound. lia.
        - apply IH. lia. }
      apply (Hn (length bs)). lia. }
    destruct (words_of_bytes bs) as [|origin content]; [discriminate|].
    intros [= <-] Hm. apply Forall_inserts; [done|].
    by inversion Hw.
  - unfold word16. lia.
  - unfold word16. lia.
Defined.

Definition tty0 : tty := Tty [] [].

(** The booted machine with one instruction word at 0x3000. *)
Definition one_instr (instr : Z) : machine tty :=
  boot (<[Z.to_nat PC_START := instr]> memory_zero) tty0.



End Demo.

(** ** The switch and the loop

    In src/lc3.c the body of every [case] of the switch is a comment
    followed by [break], and nothing stands between the loop and the end
    of [main]. *)

(** [switch (op) { case OP_ADD: break; ... default: break; }] *)
Definition execute_as_written {T} (op : Z) : M T unit :=
  match switch op with
  | CASE_ADD => mret tt
  | CASE_AND => mret tt
  | CASE_NOT => mret tt
  | CASE_BR => mret tt
  | CASE_JMP => mret tt
  | CASE_JSR => mret tt
  | CASE_LD => mret tt
  | CASE_LDI => mret tt
  | CASE_LDR => mret tt
  | CASE_LEA => mret tt
  | CASE_ST => mret tt
  | CASE_STI => mret tt
  | CASE_STR => mret tt
  | CASE_TRAP => mret tt
  | CASE_DEFAULT => mret tt
  end.

(** One iteration of the body of [while (running)], as written. *)
Definition step_as_written {T} `{Host T} : M T unit :=
  instr ← fetch;
  let op := opcode_of instr in
  execute_as_written op.

(** [while (running) { ... }] over that body, with a bound on the number
    of iterations. *)
Fixpoint run_as_written {T} `{Host T} (fuel : nat) (s : machine T)
  : outcome T :=
  if running s then
    match fuel with
    | O => OutOfFuel s
    | S fuel' =>
        match step_as_written s with
        | Some (_, s') => run_as_written fuel' s'
        | None => Undefined
        end
    end
  else Finished s.

(** [main] as written: control that leaves the loop reaches the end of
    [main], which returns 0. *)
Definition main_as_written {T} `{Host T} (fuel : nat) (argv : list string)
  (t : T) : process T :=
  match startup argv t with
  | inl e => Exited e
  | inr s0 =>
      match run_as_written fuel s0 with
      | Finished s => Exited (Exit 0 (term s))
      | OutOfFuel s => StillRunning s
      | Undefined => Crashed
      end
  end.

(** * Properties *)

(** ** Arithmetic on 16-bit values *)

Lemma wrap16_word16 v : word16 (wrap16 v).
Proof. unfold word16, wrap16. apply Z.mod_pos_bound. lia. Qed.

Lemma wrap16_idem v : wrap16 (wrap16 v) = wrap16 v.
Proof. unfold wrap16. apply Z.mod_mod. lia. Qed.

(** The mask [0xFFFF << b] cut to 16 bits: bits [b..15]. *)
Lemma mask_testbit b i :
  0 <= b <= 16 -> 0 <= i ->
  Z.testbit (wrap16 (Z.shiftl 0xFFFF b)) i = (b <=? i) && (i <? 16).
Proof.
  intros Hb Hi. unfold wrap16. change 65536 with (2 ^ 16).
  rewrite Z.testbit_mod_pow2 by lia. rewrite Z.shiftl_spec by done.
  change 0xFFFF with (Z.ones 16). rewrite Z.testbit_ones by lia.
  destruct (Z.ltb_spec i 16), (Z.leb_spec b i), (Z.leb_spec 0 (i - b)),
    (Z.ltb_spec (i - b) 16); simpl; try reflexivity; lia.
Qed.

Lemma sign_extend_testbit v b i :
  0 < b <= 16 -> 0 <= i ->
  Z.testbit (sign_extend v b) i =
    if Z.testbit v (b - 1) && (b <=? i) && (i <? 16) then true
    else Z.testbit v i.
Proof.
  intros Hb Hi. unfold sign_extend. destruct (Z.testbit v (b - 1)); simpl.
  - rewrite Z.lor_spec, mask_testbit by lia.
    destruct ((b <=? i) && (i <? 16)); simpl; [apply orb_true_r|apply orb_false_r].
  - done.
Qed.

Lemma word16_testbit v : 0 <= v -> (forall i, 16 <= i -> Z.testbit v i = false) -> word16 v.
Proof.
  intros Hv Hb. split; [done|].
  destruct (Z.lt_ge_cases v (2 ^ 16)) as [|Hge]; [done|].
  destruct (Z.eq_dec v 0) as [->|]; [done|].
  assert (Hl : 16 <= Z.log2 v) by (apply Z.log2_le_pow2; lia).
  specialize (Hb _ Hl). rewrite Z.bit_log2 in Hb by lia. done.
Qed.

Lemma testbit_word16 v i : word16 v -> 16 <= i -> Z.testbit v i = false.
Proof.
  intros [H0 H1] Hi. destruct (Z.eq_dec v 0) as [->|]; [apply Z.bits_0|].
  apply Z.bits_above_log2; [done|].
  assert (Z.log2 v < 16) by (apply Z.log2_lt_pow2; lia). lia.
Qed.

Lemma sign_extend_word16 v b : word16 v -> 0 < b <= 16 -> word16 (sign_extend v b).
Proof.
  intros Hv Hb. apply word16_testbit.
  - unfold sign_extend. destruct (Z.testbit v (b - 1)); [|apply Hv].
    apply Z.lor_nonneg. split; [apply Hv|apply wrap16_word16].
  - intros i Hi. rewrite sign_extend_testbit by lia.
    replace (i <? 16) with false by lia. rewrite andb_false_r.
    by apply testbit_word16.
Qed.

Lemma sign_extend_idem v b : 0 < b <= 16 -> sign_extend (sign_extend v b) b = sign_extend v b.
Proof.
  intros Hb. unfold sign_extend at 1.
  rewrite sign_extend_testbit by lia.
  replace (b <=? b - 1) with false by lia. rewrite andb_false_r, andb_false_l.
  unfold sign_extend. destruct (Z.testbit v (b - 1)); [|done].
  by rewrite <- Z.lor_assoc, Z.lor_diag.
Qed.

(** The value of a [b]-bit field, read as two's complement, survives the
    extension to 16 bits. *)
Lemma sign_extend_signed v b :
  0 < b <= 16 -> 0 <= v < 2 ^ b ->
  signed 16 (sign_extend v b) = signed b v.
Proof.
  intros Hb Hv. unfold signed. rewrite sign_extend_testbit by lia.
  assert (Hlog : v <> 0 -> Z.log2 v < b) by (intros; apply Z.log2_lt_pow2; lia).
  assert (Hhi : forall i, b <= i -> Z.testbit v i = false).
  { intros i Hi. destruct (Z.eq_dec v 0) as [->|]; [apply Z.bits_0|].
    apply Z.bits_above_log2; lia. }
  assert (Hse : sign_extend v b =
                if Z.testbit v (b - 1) then v + (2 ^ 16 - 2 ^ b) else v).
  { unfold sign_extend. destruct (Z.testbit v (b - 1)); [|done].
    rewrite <- Z.add_nocarry_lor.
    - f_equal. unfold wrap16. change 0xFFFF with (Z.ones 16).
      rewrite Z.shiftl_mul_pow2, Z.ones_equiv by lia.
      change 65536 with (2 ^ 16).
      replace ((Z.pred (2 ^ 16)) * 2 ^ b) with
        ((2 ^ 16 - 2 ^ b) + (2 ^ b - 1) * 2 ^ 16) by lia.
      rewrite Z.mod_add by lia. apply Z.mod_small.
      assert (2 ^ b <= 2 ^ 16) by (apply Z.pow_le_mono_r; lia). lia.
    - apply Z.bits_inj'. intros i Hi. rewrite Z.land_spec, Z.bits_0.
      rewrite mask_testbit by lia.
      destruct (Z.leb_spec b i); [|apply andb_false_r].
      by rewrite Hhi. }
  rewrite Hse. destruct (Z.testbit v (b - 1)) eqn:Hbit.
  - destruct (Z.leb_spec b (16 - 1)).
    + change (16 - 1 <? 16) with true. cbn [andb]. lia.
    + assert (b = 16) as -> by lia. cbn [andb]. rewrite Hbit. lia.
  - cbn [andb]. destruct (Z.eq_dec b 16) as [->|].
    + by rewrite Hbit.
    + by rewrite Hhi by lia.
Qed.
(** ** Arrays *)

Lemma array_get_Some a i :
  0 <= i < Z.of_nat (length a) -> array_get a i = Some (default 0 (array_get a i)).
Proof.
  intros Hi. unfold array_get. replace (0 <=? i) with true by lia.
  destruct (lookup_lt_is_Some_2 a (Z.to_nat i)) as [v Hv]; [lia|].
  by rewrite Hv.
Qed.

Lemma array_get_Forall (P : Z -> Prop) a i v :
  Forall P a -> array_get a i = Some v -> P v.
Proof.
  unfold array_get. intros Ha. destruct (0 <=? i); [|done].
  intros Hv. by eapply Forall_lookup_1.
Qed.

Lemma array_set_Some a i v :
  0 <= i < Z.of_nat (length a) ->
  array_set a i v = Some (<[Z.to_nat i := v]> a).
Proof.
  intros Hi. unfold array_set.
  replace (0 <=? i) with true by lia. by replace (i <? _) with true by lia.
Qed.

Lemma array_get_insert a i j v :
  0 <= i < Z.of_nat (length a) -> 0 <= j ->
  array_get (<[Z.to_nat i := v]> a) j =
    if decide (i = j) then Some v else array_get a j.
Proof.
  intros Hi Hj. unfold array_get. replace (0 <=? j) with true by lia.
  destruct (decide (i = j)) as [->|Hne].
  - apply list_lookup_insert_eq. lia.
  - apply list_lookup_insert_ne. lia.
Qed.

Section Machine.
Context {T : Type} `{Host T}.
Implicit Types (s : machine T) (Q : unit -> machine T -> Prop).

Lemma wf_reg_length s : wf s -> Z.of_nat (length (reg s)) = 10.
Proof. intros (-> & _). reflexivity. Qed.

Lemma wf_memory_length s : wf s -> Z.of_nat (length (memory s)) = 65536.
Proof. intros (_ & -> & _). reflexivity. Qed.

Lemma regv_word16 s r : wf s -> word16 (regv s r).
Proof.
  intros (_ & _ & Hr & _). unfold regv.
  destruct (array_get (reg s) r) as [v|] eqn:E; simpl.
  - by eapply array_get_Forall.
  - unfold word16. lia.
Qed.

Lemma cellv_word16 s a : wf s -> word16 (cellv s a).
Proof.
  intros (_ & _ & _ & Hm). unfold cellv.
  destruct (array_get (memory s) a) as [v|] eqn:E; simpl.
  - by eapply array_get_Forall.
  - unfold word16. lia.
Qed.

Lemma wf_set_reg s r v :
  wf s -> word16 v -> wf (set_reg (<[Z.to_nat r := v]> (reg s)) s).
Proof.
  intros (Hl & Hm & Hr & Hc) Hv. unfold wf. simpl.
  rewrite length_insert. split_and!; try done. by apply Forall_insert.
Qed.

Lemma wf_set_memory s a v :
  wf s -> word16 v -> wf (set_memory (<[Z.to_nat a := v]> (memory s)) s).
Proof.
  intros (Hl & Hm & Hr & Hc) Hv. unfold wf. simpl.
  rewrite length_insert. split_and!; try done. by apply Forall_insert.
Qed.

Lemma wf_set_term s t : wf s -> wf (set_term t s).
Proof. done. Qed.

Lemma regv_set_reg s r r' v :
  0 <= r < Z.of_nat (length (reg s)) -> 0 <= r' ->
  regv (set_reg (<[Z.to_nat r := v]> (reg s)) s) r' =
    if decide (r = r') then v else regv s r'.
Proof.
  intros Hr Hr'. unfold regv. simpl. rewrite array_get_insert by done.
  by destruct (decide _).
Qed.

Lemma cellv_set_memory s a a' v :
  0 <= a < Z.of_nat (length (memory s)) -> 0 <= a' ->
  cellv (set_memory (<[Z.to_nat a := v]> (memory s)) s) a' =
    if decide (a = a') then v else cellv s a'.
Proof.
  intros Hr Hr'. unfold cellv. simpl. rewrite array_get_insert by done.
  by destruct (decide _).
Qed.

(** ** Rules of [wp] *)

Lemma wp_ret {A} (a : A) (Q : A -> machine T -> Prop) s :
  Q a s -> wp (mret a) Q s.
Proof. done. Qed.

Lemma wp_bind {A B} (c : M T A) (k : A -> M T B) (Q : B -> machine T -> Prop) s :
  wp c (fun a s' => wp (k a) Q s') s -> wp (c ≫= k) Q s.
Proof.
  unfold wp, mbind, M_bind. destruct (c s) as [[a s']|]; done.
Qed.

Lemma wp_elim {A} (c : M T A) (Q : A -> machine T -> Prop) s :
  wp c Q s -> exists a s', c s = Some (a, s') /\ Q a s'.
Proof. unfold wp. destruct (c s) as [[a s']|]; [eauto|done]. Qed.

Lemma wp_intro {A} (c : M T A) (Q : A -> machine T -> Prop) s a s' :
  c s = Some (a, s') -> Q a s' -> wp c Q s.
Proof. unfold wp. by intros ->. Qed.

Lemma wp_reg_read r (Q : Z -> machine T -> Prop) s :
  0 <= r < Z.of_nat (length (reg s)) ->
  Q (regv s r) s -> wp (reg_read r) Q s.
Proof.
  intros Hr HQ. unfold wp, reg_read. by rewrite array_get_Some.
Qed.

Lemma wp_reg_write r v Q s :
  0 <= r < Z.of_nat (length (reg s)) ->
  Q tt (set_reg (<[Z.to_nat r := wrap16 v]> (reg s)) s) ->
  wp (reg_write r v) Q s.
Proof.
  intros Hr HQ. unfold wp, reg_write. by rewrite array_set_Some.
Qed.

Lemma wp_cell_read a (Q : Z -> machine T -> Prop) s :
  0 <= a < Z.of_nat (length (memory s)) ->
  Q (cellv s a) s -> wp (cell_read a) Q s.
Proof.
  intros Hr HQ. unfold wp, cell_read. by rewrite array_get_Some.
Qed.

Lemma wp_mem_write a v Q s :
  0 <= a < Z.of_nat (length (memory s)) ->
  Q tt (set_memory (<[Z.to_nat a := v]> (memory s)) s) -> wp (mem_write a v) Q s.
Proof.
  intros Hr HQ. unfold wp, mem_write. by rewrite array_set_Some.
Qed.

Lemma mem_read_effect a s :
  wf s -> word16 a ->
  wp (mem_read a)
     (fun v s' =>
        wf s' /\ word16 v /\ reg s' = reg s /\ running s' = running s /\
        fault s' = fault s /\ v = cellv s' a /\ (a <> MR_KBSR -> s' = s)) s.
Proof.
  intros Hwf Ha. pose proof (wf_memory_length s Hwf) as Hlen.
  unfold mem_read, word16 in *. destruct (Z.eqb_spec a MR_KBSR) as [->|Hne].
  - apply wp_bind. unfold wp at 1, poll_key.
    pose proof MR_KBSR_word16 as Hs. pose proof MR_KBDR_word16 as Hd.
    unfold word16 in *.
    apply wp_bind. destruct (key_available (term s)).
    + apply wp_bind. unfold wp at 1, getchar.
      destruct (read_char (term s)) as [c t].
      apply wp_bind, wp_mem_write; [simpl; lia|].
      apply wp_bind, wp_cell_read; [simpl; rewrite length_insert; lia|].
      set (s1 := set_memory _ (set_term t s)).
      assert (Hwf1 : wf s1).
      { apply (wf_set_memory (set_term t s)); [done|apply wrap16_word16]. }
      apply wp_mem_write; [simpl; rewrite length_insert; lia|].
      set (s2 := set_memory _ s1).
      assert (Hwf2 : wf s2).
      { apply wf_set_memory; [done|]. apply word16_testbit.
        - apply Z.lor_nonneg. split; [apply cellv_word16, Hwf1|done].
        - intros i Hi. rewrite Z.lor_spec.
          rewrite (testbit_word16 (cellv s1 MR_KBSR)) by (by apply cellv_word16 || done).
          change (Z.shiftl 1 15) with (2 ^ 15). rewrite Z.pow2_bits_eqb by lia.
          rewrite orb_false_l. apply Z.eqb_neq. lia. }
      apply wp_cell_read; [by rewrite wf_memory_length|].
      split_and!; try done; by apply (cellv_word16 s2 MR_KBSR).
    + apply wp_bind, wp_cell_read; [lia|].
      apply wp_mem_write; [lia|].
      set (s1 := set_memory _ s).
      assert (Hwf1 : wf s1).
      { apply wf_set_memory; [done|]. apply word16_testbit.
        - apply Z.land_nonneg. left. by apply (cellv_word16 s MR_KBSR).
        - intros i Hi. rewrite Z.land_spec.
          rewrite (testbit_word16 (cellv s MR_KBSR)); [done| |done].
          by apply cellv_word16. }
      apply wp_cell_read; [by rewrite wf_memory_length|].
      split_and!; try done; by apply (cellv_word16 s1 MR_KBSR).
  - apply wp_cell_read; [lia|].
    split_and!; try done; by apply (cellv_word16 s a).
Qed.

Lemma wp_mem_read a (Q : Z -> machine T -> Prop) s :
  wf s -> word16 a ->
  (forall v s', read_effect a s v s' -> Q v s') ->
  wp (mem_read a) Q s.
Proof.
  intros Hwf Ha HQ.
  destruct (wp_elim _ _ _ (mem_read_effect a s Hwf Ha)) as (v & s' & E & Hpost).
  eapply wp_intro; [exact E|]. apply HQ. by split.
Qed.

End Machine.

(** ** Tactics for the side conditions *)

Ltac reg_consts :=
  unfold R_R0, R_R1, R_R2, R_R3, R_R4, R_R5, R_R6, R_R7, R_PC, R_COND,
    R_COUNT in *.

(** Side conditions of the rules: an index inside one of the two
    arrays. *)
Ltac bounds :=
  simpl; rewrite ?length_insert;
  repeat match goal with
  | E : reg _ = _ |- _ => rewrite E; simpl; rewrite ?length_insert
  | Hwf : wf ?s |- context [length (reg ?s)] =>
      rewrite (wf_reg_length s Hwf)
  | Hwf : wf ?s |- context [length (memory ?s)] =>
      rewrite (wf_memory_length s Hwf)
  end;
  reg_consts; unfold word16 in *;
  try match goal with |- context [wrap16 ?v] =>
    pose proof (wrap16_word16 v); unfold word16 in * end;
  lia.

Ltac word16_solve :=
  first [ assumption | apply wrap16_word16
        | by apply regv_word16 | by apply cellv_word16 ].

Ltac wf_solve :=
  repeat first [ assumption
               | apply wf_set_reg | apply wf_set_memory
               | apply wf_set_term
               | word16_solve ].

(** ** Symbolic execution *)

Ltac wp_step :=
  lazymatch goal with
  | |- wp (mbind _ _) _ _ => apply wp_bind
  | |- wp (mret _) _ _ => apply wp_ret
  | |- wp (reg_read _) _ _ => apply wp_reg_read; [bounds|]
  | |- wp (reg_write _ _) _ _ => apply wp_reg_write; [bounds|]
  | |- wp (mem_write _ _) _ _ => apply wp_mem_write; [bounds|]
  | |- wp (mem_read _) _ _ =>
      apply wp_mem_read; [wf_solve|word16_solve|]
  end.

Ltac wp_go := repeat wp_step.

(** ** The fetch *)

Section Fetch.
Context {T : Type} `{Host T}.
Implicit Types (s : machine T).

Lemma regv_congr s s' r : reg s' = reg s -> regv s' r = regv s r.
Proof. unfold regv. by intros ->. Qed.

Lemma wf_store s a v : wf s -> word16 v -> wf (store s a v).
Proof. intros Hwf Hv. unfold store. wf_solve. Qed.

Lemma fetch_spec s :
  wf s ->
  wp fetch
     (fun instr s1 =>
        read_effect (regv s R_PC) (set_pc s (wrap16 (regv s R_PC + 1))) instr s1) s.
Proof.
  intros Hwf. unfold fetch. wp_go. by rewrite wrap16_idem.
Qed.

End Fetch.

(** ** The loop *)

Section Loop.
Context {T : Type} `{Host T}.
Implicit Types (s : machine T).

Lemma wp_inv {A} (c : M T A) (Q : A -> machine T -> Prop) s a s' :
  wp c Q s -> c s = Some (a, s') -> Q a s'.
Proof. unfold wp. intros HQ E. by rewrite E in HQ. Qed.

(** What the fetch phase hands to the instruction body. *)
Lemma fetched s instr s1 :
  wf s -> fetch s = Some (instr, s1) ->
  wf s1 /\ word16 instr /\
  regv s1 R_PC = wrap16 (regv s R_PC + 1) /\
  (forall r, 0 <= r -> r <> R_PC -> regv s1 r = regv s r) /\
  running s1 = running s /\ fault s1 = fault s /\
  instr = cellv s1 (regv s R_PC) /\
  (regv s R_PC <> MR_KBSR -> memory s1 = memory s /\ term s1 = term s).
Proof.
  intros Hwf E.
  destruct (wp_inv _ _ _ _ _ (fetch_spec s Hwf) E)
    as (_ & Hwf1 & Hi & Hreg & Hrun & Hflt & Hval & Hsame).
  split_and!; try done.
  - rewrite (regv_congr _ _ _ Hreg). unfold set_pc.
    rewrite regv_set_reg by bounds. by rewrite decide_True.
  - intros r Hr Hne. rewrite (regv_congr _ _ _ Hreg). unfold set_pc.
    rewrite regv_set_reg by bounds. by rewrite decide_False.
  - intros Hne. by rewrite (Hsame Hne).
Qed.

Lemma fetch_total s : wf s -> exists instr s1, fetch s = Some (instr, s1).
Proof.
  intros Hwf. destruct (wp_elim _ _ _ (fetch_spec s Hwf)) as (i & s1 & E & _).
  eauto.
Qed.

Lemma switch_cases op :
  match switch op with
  | CASE_ADD => op = OP_ADD | CASE_AND => op = OP_AND
  | CASE_NOT => op = OP_NOT | CASE_BR => op = OP_BR
  | CASE_JMP => op = OP_JMP | CASE_JSR => op = OP_JSR
  | CASE_LD => op = OP_LD | CASE_LDI => op = OP_LDI
  | CASE_LDR => op = OP_LDR | CASE_LEA => op = OP_LEA
  | CASE_ST => op = OP_ST | CASE_STI => op = OP_STI
  | CASE_STR => op = OP_STR | CASE_TRAP => op = OP_TRAP
  | CASE_DEFAULT =>
      op = OP_RES \/ op = OP_RTI \/ op < 0 \/ 15 < op
  end.
Proof.
  unfold switch.
  repeat match goal with
  | |- context [?a =? ?b] => destruct (Z.eqb_spec a b); [done|]
  end.
  unfold OP_ADD, OP_AND, OP_NOT, OP_BR, OP_JMP, OP_JSR, OP_LD, OP_LDI, OP_LDR,
    OP_LEA, OP_ST, OP_STI, OP_STR, OP_TRAP, OP_RES, OP_RTI in *. lia.
Qed.

End Loop.

(** ** Machines handed to the loop *)

Lemma wf_boot {T} (m : list Z) (t : T) :
  length m = Z.to_nat MEMORY_MAX -> Forall word16 m -> wf (boot m t).
Proof.
  intros Hl Hm. unfold wf, boot. cbn [reg memory].
  split_and!; [reflexivity|done| |done].
  apply (bool_decide_unpack _). by vm_compute.
Qed.

Lemma wf_memory_zero :
  length memory_zero = Z.to_nat MEMORY_MAX /\ Forall word16 memory_zero.
Proof.
  unfold memory_zero. split; [apply length_replicate|].
  apply Forall_replicate. unfold word16. lia.
Qed.

Lemma load_images_shape {T} `{Host T} paths m m' :
  load_images paths m = inr m' ->
  length m' = length m /\ (Forall word16 m -> Forall word16 m').
Proof.
  revert m. induction paths as [|p rest IH]; intros m; simpl.
  - by intros [= ->].
  - destruct (read_image p m) as [m1|] eqn:E; [|done]. intros Hrest.
    destruct (IH _ Hrest) as (Hl & Hw). split.
    + rewrite Hl. by eapply read_image_length.
    + intros Hm. apply Hw. by eapply read_image_word16.
Qed.

(** [main] enters the loop with a well-formed machine. *)
Lemma startup_wf {T} `{Host T} argv (t : T) s0 :
  startup argv t = inr s0 -> wf s0.
Proof.
  unfold startup. destruct (_ <? 2); [done|].
  destruct (load_images _ _) as [p|m] eqn:E; [done|]. intros [= <-].
  destruct (load_images_shape _ _ _ E) as (Hl & Hw).
  destruct wf_memory_zero as (Hl0 & Hw0).
  apply wf_boot; [congruence|auto].
Qed.

Lemma one_instr_wf instr : word16 instr -> wf (Demo.one_instr instr).
Proof.
  intros Hi. destruct wf_memory_zero as (Hl0 & Hw0). apply wf_boot.
  - by rewrite length_insert.
  - by apply Forall_insert.
Qed.

Lemma word16_literal v : (0 <=? v) && (v <? 65536) = true -> word16 v.
Proof. unfold word16. lia. Qed.

(** ** Frames of the two state updates *)

Section Rows.
Context {T : Type} `{Host T}.
Implicit Types (s : machine T).

Lemma cellv_store s a v :
  wf s -> word16 a -> cellv (store s a v) a = v.
Proof.
  intros Hwf Ha. unfold store. rewrite cellv_set_memory by bounds.
  by rewrite decide_True.
Qed.

Lemma cellv_store_ne s a b v :
  wf s -> word16 a -> 0 <= b -> a <> b -> cellv (store s a v) b = cellv s b.
Proof.
  intros Hwf Ha Hb Hne. unfold store. rewrite cellv_set_memory by bounds.
  by rewrite decide_False.
Qed.

End Rows.

(** ** [main] and its loop *)

Lemma load_images_fails {T} `{Host T} pre path post m0 m :
  load_images pre m0 = inr m -> read_image path m = None ->
  load_images (pre ++ path :: post) m0 = inl path.
Proof.
  revert m0. induction pre as [|p pre IH]; intros m0; simpl.
  - intros [= ->] Hfail. by rewrite Hfail.
  - destruct (read_image p m0); [|done]. apply IH.
Qed.

Lemma load_images_inl_split {T} `{Host T} (paths : list string)
  (m0 : list Z) (p : string) :
  load_images paths m0 = inl p ->
  exists pre post m,
    paths = pre ++ p :: post /\
    load_images pre m0 = inr m /\
    read_image p m = None.
Proof.
  revert m0. induction paths as [|q rest IH]; intros m0; simpl; [done|].
  destruct (read_image q m0) as [m1|] eqn:E.
  - intros Hrest. destruct (IH _ Hrest) as (pre & post & m & -> & Hpre & Hp).
    exists (q :: pre), post, m. simpl. by rewrite E.
  - intros [= <-]. by exists [], rest, m0.
Qed.

Lemma startup_inl_cases {T} `{Host T} (argv : list string) (t : T)
  (e : exit_report T) :
  startup argv t = inl e ->
  ((length argv < 2)%nat /\ e = Exit 2 (print usage_text t)) \/
  ((2 <= length argv)%nat /\
   exists pre p post m,
     drop 1 argv = pre ++ p :: post /\
     load_images pre memory_zero = inr m /\
     read_image p m = None /\
     e = Exit 1 (print (load_failure_text p) t)).
Proof.
  unfold startup. destruct (Z.ltb_spec (Z.of_nat (length argv)) 2).
  - intros [= <-]. left. split; [lia|done].
  - destruct (load_images (drop 1 argv) memory_zero) as [p|m] eqn:E; [|done].
    intros [= <-]. right. split; [lia|].
    destruct (load_images_inl_split _ _ _ E)
      as (pre & post & m & Hargv & Hpre & Hp).
    by exists pre, p, post, m.
Qed.

Lemma startup_inr_boot {T} `{Host T} (argv : list string) (t : T)
  (s0 : machine T) :
  startup argv t = inr s0 ->
  (2 <= length argv)%nat /\
  load_images (drop 1 argv) memory_zero = inr (memory s0) /\
  s0 = boot (memory s0) t.
Proof.
  unfold startup. destruct (Z.ltb_spec (Z.of_nat (length argv)) 2); [done|].
  destruct (load_images (drop 1 argv) memory_zero) as [p|m]; [done|].
  intros [= <-]. split_and!; try done. lia.
Qed.



Lemma step_as_written_fetch {T} `{Host T} (s : machine T) :
  step_as_written s =
    match fetch s with
    | Some (_, s1) => Some (tt, s1)
    | None => None
    end.
Proof.
  unfold step_as_written, mbind, M_bind. destruct (fetch s) as [[instr s1]|]; [|done].
  unfold execute_as_written. by destruct (switch (opcode_of instr)).
Qed.




Lemma run_as_written_stays {T} `{Host T} (fuel : nat) (s : machine T) :
  wf s -> running s = true ->
  exists s',
    run_as_written fuel s = OutOfFuel s' /\
    wf s' /\ running s' = true /\ fault s' = fault s /\
    regv s' R_PC = wrap16 (regv s R_PC + Z.of_nat fuel) /\
    (forall r, 0 <= r < R_COUNT -> r <> R_PC -> regv s' r = regv s r).
Proof.
  revert s. induction fuel as [|fuel IH]; intros s Hwf Hrun.
  - exists s. simpl. rewrite Hrun. split_and!; try done.
    rewrite Z.add_0_r. unfold wrap16. symmetry. apply Z.mod_small.
    apply (regv_word16 s R_PC Hwf).
  - destruct (fetch_total s Hwf) as (instr & s1 & E).
    destruct (fetched s instr s1 Hwf E)
      as (Hwf1 & _ & Hpc & Hregs & Hrun1 & Hflt1 & _).
    destruct (IH s1 Hwf1) as (s' & Erun & Hwf' & Hrun' & Hflt' & Hpc' & Hregs');
      [congruence|].
    exists s'. simpl. rewrite Hrun, step_as_written_fetch, E.
    split_and!; try done; try congruence.
    + rewrite Hpc', Hpc. unfold wrap16. rewrite Zplus_mod_idemp_l.
      f_equal. lia.
    + intros r Hr Hne. rewrite Hregs' by done. apply Hregs; lia.
Qed.




(** * Properties stated by the specification *)

(** ** Sign extension *)

(** C6: for a 16-bit [v] and a width [b] among 5, 6, 9 and 11,
    [sign_extend v b] is [v] when bit [b-1] of [v] is clear; when it is
    set the result is the 16-bit value that agrees with [v] below bit [b]
    and has bits [b] to 15 set; extending the result again at the same
    width changes nothing. *)
Theorem sign_extend_cases_and_idempotence (v b : Z) :
  word16 v -> b = 5 \/ b = 6 \/ b = 9 \/ b = 11 ->
  (Z.testbit v (b - 1) = false -> sign_extend v b = v) /\
  (Z.testbit v (b - 1) = true ->
     word16 (sign_extend v b) /\
     forall i, 0 <= i ->
       Z.testbit (sign_extend v b) i =
         if (b <=? i) && (i <? 16) then true else Z.testbit v i) /\
  sign_extend (sign_extend v b) b = sign_extend v b.
Proof.
  intros Hv Hb. assert (0 < b <= 16) by lia. split; [|split].
  - intros Hbit. unfold sign_extend. by rewrite Hbit.
  - intros Hbit. split; [by apply sign_extend_word16|].
    intros i Hi. rewrite sign_extend_testbit by lia. by rewrite Hbit.
  - by apply sign_extend_idem.
Qed.

Lemma sign_extend_cases_and_idempotence_witness :
  (Z.testbit 0x001F (5 - 1) = false -> sign_extend 0x001F 5 = 0x001F) /\
  (Z.testbit 0x001F (5 - 1) = true ->
     word16 (sign_extend 0x001F 5) /\
     forall i, 0 <= i ->
       Z.testbit (sign_extend 0x001F 5) i =
         if (5 <=? i) && (i <? 16) then true else Z.testbit 0x001F i) /\
  sign_extend (sign_extend 0x001F 5) 5 = sign_extend 0x001F 5.
Proof.
  apply (sign_extend_cases_and_idempotence 0x001F 5).
  - apply word16_literal. reflexivity.
  - left. reflexivity.
Defined.

(** ** Memory *)

(** C8: memory has [MEMORY_MAX] = 65,536 cells; for a 16-bit address and
    value the write is defined, stores the value as it is, leaves every
    other cell and every register alone and keeps the state well-formed;
    and at every 16-bit address both the read and the write are
    defined. *)
Theorem memory_access_total {T} `{Host T} (s : machine T) (a v : Z) :
  wf s -> word16 a -> word16 v ->
  MEMORY_MAX = 65536 /\
  Z.of_nat (length (memory s)) = MEMORY_MAX /\
  (exists s',
     mem_write a v s = Some (tt, s') /\
     cellv s' a = v /\
     (forall b, word16 b -> b <> a -> cellv s' b = cellv s b) /\
     reg s' = reg s /\ running s' = running s /\ fault s' = fault s /\
     term s' = term s /\
     wf s') /\
  (forall b w, word16 b ->
     is_Some (mem_read b s) /\ is_Some (mem_write b w s)).
Proof.
  intros Hwf Ha Hv. pose proof (wf_memory_length s Hwf) as Hlen.
  split_and!; [done|done| |].
  - exists (store s a v). split_and!; try done.
    + unfold mem_write. rewrite array_set_Some; [done|bounds].
    + by apply cellv_store.
    + intros b Hb Hne. apply cellv_store_ne; try done. apply Hb.
    + by apply wf_store.
  - intros b w Hb. split.
    + destruct (wp_elim _ _ _ (mem_read_effect b s Hwf Hb)) as (x & s' & -> & _).
      eauto.
    + unfold mem_write. rewrite array_set_Some; [eauto|bounds].
Qed.

Lemma memory_access_total_witness :
  exists s',
    mem_write 0xFFFF 0xABCD (Demo.one_instr 0xF025) = Some (tt, s') /\
    cellv s' 0xFFFF = 0xABCD /\ cellv s' 0x3000 = 0xF025.
Proof.
  destruct (memory_access_total (Demo.one_instr 0xF025) 0xFFFF 0xABCD)
    as (_ & _ & (s' & Ew & Hrd & Hother & _) & _).
  - apply one_instr_wf, word16_literal. reflexivity.
  - apply word16_literal. reflexivity.
  - apply word16_literal. reflexivity.
  - exists s'. split_and!; [exact Ew|exact Hrd|].
    rewrite Hother; [reflexivity|apply word16_literal; reflexivity|discriminate].
Defined.

(** ** The initial state *)

(** C5: whenever [main] reaches the loop, the machine it enters it with
    is running, has PC = 0x3000, COND equal to the zero flag alone, and
    R0 to R7 equal to 0. *)
Theorem initial_state {T} `{Host T} (argv : list string) (t : T)
  (s0 : machine T) :
  startup argv t = inr s0 ->
  running s0 = true /\
  regv s0 R_PC = 0x3000 /\
  regv s0 R_COND = FL_ZRO /\
  flag_set (regv s0 R_COND) FL_ZRO = true /\
  flag_set (regv s0 R_COND) FL_NEG = false /\
  flag_set (regv s0 R_COND) FL_POS = false /\
  (forall r, 0 <= r < 8 -> regv s0 r = 0) /\
  fault s0 = None /\ term s0 = t.
Proof.
  unfold startup. destruct (_ <? 2); [done|].
  destruct (load_images _ _) as [p|m]; [done|]. intros [= <-].
  split_and!; try done.
  intros r Hr.
  assert (Hcases : r = 0 \/ r = 1 \/ r = 2 \/ r = 3 \/ r = 4 \/ r = 5 \/
                   r = 6 \/ r = 7) by lia.
  by destruct Hcases as [->|[->|[->|[->|[->|[->|[->| ->]]]]]]].
Qed.

Lemma initial_state_witness :
  exists s0,
    startup ["lc3"; "reserved.obj"]%string Demo.tty0 = inr s0 /\
    running s0 = true /\
    regv s0 R_PC = 0x3000 /\
    regv s0 R_COND = FL_ZRO /\
    (forall r, 0 <= r < 8 -> regv s0 r = 0).
Proof.
  eexists. split; [reflexivity|].
  edestruct (initial_state ["lc3"; "reserved.obj"]%string Demo.tty0)
    as (Hrun & Hpc & Hcond & _ & _ & _ & Hregs & _); [reflexivity|].
  split_and!; [exact Hrun|exact Hpc|exact Hcond|exact Hregs].
Defined.

(** ** Decoding *)

Lemma opcode_of_range instr : word16 instr -> 0 <= opcode_of instr <= 15.
Proof.
  intros [H0 H1]. unfold opcode_of. rewrite Z.shiftr_div_pow2 by lia.
  change (2 ^ 12) with 4096. split.
  - apply Z.div_pos; lia.
  - assert (instr / 4096 < 16) by (apply Z.div_lt_upper_bound; lia). lia.
Qed.

Ltac op_consts :=
  unfold OP_ADD, OP_AND, OP_NOT, OP_BR, OP_JMP, OP_JSR, OP_LD, OP_LDI, OP_LDR,
    OP_LEA, OP_ST, OP_STI, OP_STR, OP_TRAP, OP_RES, OP_RTI in *.

(** C10: the opcode of a 16-bit word is the word shifted right by 12, a
    value from 0 to 15 that a 4-bit mask leaves as it is; the switch
    takes one branch, and one only, for it; the branch is the default one
    exactly for OP_RES and OP_RTI, which share it with every value
    outside 0..15. *)
Theorem decode_total (instr : Z) :
  word16 instr ->
  opcode_of instr = Z.shiftr instr 12 /\
  0 <= opcode_of instr <= 15 /\
  Z.land (opcode_of instr) 0xF = opcode_of instr /\
  (exists b, switch (opcode_of instr) = b /\
             forall b', switch (opcode_of instr) = b' -> b' = b) /\
  (switch (opcode_of instr) = CASE_DEFAULT <->
     opcode_of instr = OP_RES \/ opcode_of instr = OP_RTI) /\
  switch OP_RES = CASE_DEFAULT /\
  switch OP_RTI = CASE_DEFAULT /\
  (forall op, ~ 0 <= op <= 15 -> switch op = CASE_DEFAULT).
Proof.
  intros Hi. pose proof (opcode_of_range instr Hi) as Hop.
  split_and!; try done; try lia.
  - change 0xF with (Z.ones 4). rewrite Z.land_ones by lia.
    apply Z.mod_small. change (2 ^ 4) with 16. lia.
  - exists (switch (opcode_of instr)). split; [done|]. by intros b' <-.
  - split.
    + intros Hsw. pose proof (switch_cases (opcode_of instr)) as Hc.
      rewrite Hsw in Hc. lia.
    + by intros [-> | ->].
  - intros op Hout. pose proof (switch_cases op) as Hc.
    destruct (switch op); try done; op_consts; lia.
Qed.

Lemma decode_total_witness :
  opcode_of 0xD000 = Z.shiftr 0xD000 12 /\
  0 <= opcode_of 0xD000 <= 15 /\
  Z.land (opcode_of 0xD000) 0xF = opcode_of 0xD000 /\
  (exists b, switch (opcode_of 0xD000) = b /\
             forall b', switch (opcode_of 0xD000) = b' -> b' = b) /\
  (switch (opcode_of 0xD000) = CASE_DEFAULT <->
     opcode_of 0xD000 = OP_RES \/ opcode_of 0xD000 = OP_RTI) /\
  switch OP_RES = CASE_DEFAULT /\
  switch OP_RTI = CASE_DEFAULT /\
  (forall op, ~ 0 <= op <= 15 -> switch op = CASE_DEFAULT).
Proof.
  apply (decode_total 0xD000). apply word16_literal. reflexivity.
Defined.

(** ** Fatal decode conditions *)




(** ** The HALT trap *)




(** ** Condition flags *)




(** ** Fetch and PC-relative addressing *)




(** ** Wrap-around *)




(** ** Exit statuses *)




(** ** The load loop *)

(** Two images over the same addresses: memory holds the one loaded
    last. *)
Example later_image_wins :
  match startup ["lc3"; "hello.obj"; "halt.obj"]%string Demo.tty0 with
  | inr s => Some (cellv s 0x3000, cellv s 0x3001)
  | inl _ => None
  end = Some (0xF025, 0xF022).
Proof. vm_compute. reflexivity. Qed.

(** * Further properties of src/lc3.c *)

(** ** The opcode field *)

(** X1: a word assembled as [op << 12 | operand], with a 4-bit opcode
    and a 12-bit operand, is a 16-bit word whose opcode, as [main]
    extracts it, is [op] again; the operand bits do not reach it. *)
Theorem opcode_of_assembled (op operand : Z) :
  0 <= op <= 15 -> 0 <= operand < 4096 ->
  Z.lor (Z.shiftl op 12) operand = op * 4096 + operand /\
  word16 (Z.lor (Z.shiftl op 12) operand) /\
  opcode_of (Z.lor (Z.shiftl op 12) operand) = op.
Proof.
  intros Hop Hoperand.
  assert (Hsum : Z.lor (Z.shiftl op 12) operand = op * 4096 + operand).
  { rewrite <- Z.add_nocarry_lor.
    - by rewrite Z.shiftl_mul_pow2 by lia.
    - apply Z.bits_inj'. intros i Hi. rewrite Z.land_spec, Z.bits_0.
      destruct (Z.lt_ge_cases i 12).
      + by rewrite Z.shiftl_spec_low.
      + rewrite (Z.bits_above_log2 operand i); [apply andb_false_r|lia|].
        destruct (Z.eq_dec operand 0) as [->|]; [simpl; lia|].
        assert (Z.log2 operand < 12) by (apply Z.log2_lt_pow2; lia). lia. }
  rewrite Hsum. split_and!; [done|unfold word16; lia|].
  unfold opcode_of. rewrite Z.shiftr_div_pow2 by lia.
  change (2 ^ 12) with 4096. rewrite Z.div_add_l by lia.
  rewrite Z.div_small by lia. lia.
Qed.

Lemma opcode_of_assembled_witness :
  Z.lor (Z.shiftl OP_TRAP 12) 0x025 = OP_TRAP * 4096 + 0x025 /\
  word16 (Z.lor (Z.shiftl OP_TRAP 12) 0x025) /\
  opcode_of (Z.lor (Z.shiftl OP_TRAP 12) 0x025) = OP_TRAP.
Proof.
  apply (opcode_of_assembled OP_TRAP 0x025); unfold OP_TRAP; lia.
Defined.

(** X2: among the sixteen opcodes the switch sends two of them to the
    same branch only when they are the same opcode or are both among
    OP_RES and OP_RTI, the two labels of the default branch. *)
Theorem switch_separates_opcodes (op1 op2 : Z) :
  0 <= op1 <= 15 -> 0 <= op2 <= 15 ->
  (switch op1 = switch op2 <->
   op1 = op2 \/
   ((op1 = OP_RES \/ op1 = OP_RTI) /\ (op2 = OP_RES \/ op2 = OP_RTI))).
Proof.
  intros H1 H2.
  pose proof (switch_cases op1) as Hc1. pose proof (switch_cases op2) as Hc2.
  split.
  - intros E. rewrite <- E in Hc2.
    destruct (switch op1); try (left; congruence). right. lia.
  - intros [-> | Hdef]; [done|].
    destruct (switch op1), (switch op2); try done; op_consts; lia.
Qed.

Lemma switch_separates_opcodes_witness :
  switch OP_RES = switch OP_RTI <->
  OP_RES = OP_RTI \/
  ((OP_RES = OP_RES \/ OP_RES = OP_RTI) /\ (OP_RTI = OP_RES \/ OP_RTI = OP_RTI)).
Proof.
  apply (switch_separates_opcodes OP_RES OP_RTI); unfold OP_RES, OP_RTI; lia.
Defined.

(** ** The register file *)

(** X3: in a register file of [R_COUNT] slots, a write to a register in
    range is defined and stores the value reduced modulo 2^16, as an
    assignment to a [uint16_t] does: a read of the same register then
    gives that reduced value (the value itself when it is within 16
    bits) and a read of any other gives what it held; the registers stay
    within 16 bits, and memory, the loop flag and the terminal are
    untouched.  An index outside 0..R_COUNT-1 is outside the array for
    both the read and the write. *)
Theorem reg_write_then_read {T} (s : machine T) (r r' v : Z) :
  length (reg s) = Z.to_nat R_COUNT ->
  0 <= r < R_COUNT -> 0 <= r' < R_COUNT ->
  (exists s',
     reg_write r v s = Some (tt, s') /\
     reg_read r' s' =
       Some (if decide (r = r') then v mod 65536 else regv s r', s') /\
     (word16 v -> reg_read r s' = Some (v, s')) /\
     length (reg s') = Z.to_nat R_COUNT /\
     (Forall word16 (reg s) -> Forall word16 (reg s')) /\
     memory s' = memory s /\ running s' = running s /\
     fault s' = fault s /\ term s' = term s) /\
  (forall q, ~ 0 <= q < R_COUNT ->
     reg_read q s = None /\ reg_write q v s = None).
Proof.
  intros Hlen Hr Hr'. unfold R_COUNT in *.
  assert (Hz : Z.of_nat (length (reg s)) = 10) by (rewrite Hlen; reflexivity).
  split.
  - exists (set_reg (<[Z.to_nat r := wrap16 v]> (reg s)) s).
    unfold reg_write, reg_read. rewrite array_set_Some by lia. simpl.
    rewrite length_insert.
    split_and!; try done.
    + rewrite array_get_insert by lia. destruct (decide (r = r')); [done|].
      unfold regv. by rewrite array_get_Some by lia.
    + intros Hv. rewrite array_get_insert by lia.
      rewrite decide_True by done. unfold wrap16.
      rewrite Z.mod_small; [done|apply Hv].
    + intros Hall. apply Forall_insert; [done|apply wrap16_word16].
  - intros q Hq. unfold reg_read, reg_write, array_get, array_set.
    destruct (Z.leb_spec 0 q); simpl; [|done].
    rewrite lookup_ge_None_2 by lia.
    by replace (q <? Z.of_nat (length (reg s))) with false by lia.
Qed.

(** Writing 0x12345 to R7 leaves 0x2345 there; the PC is as it was. *)
Lemma reg_write_then_read_witness :
  exists s',
    reg_write R_R7 0x12345 (Demo.one_instr 0xF025) = Some (tt, s') /\
    reg_read R_R7 s' = Some (0x2345, s') /\
    reg_read R_PC s' = Some (0x3000, s').
Proof.
  destruct (reg_write_then_read (Demo.one_instr 0xF025) R_R7 R_R7 0x12345)
    as ((s' & Ew & Er & _) & _).
  - reflexivity.
  - unfold R_R7, R_COUNT. lia.
  - unfold R_R7, R_COUNT. lia.
  - exists s'. split_and!; [exact Ew|exact Er|].
    injection Ew as <-. reflexivity.
Defined.

(** ** Loading the images *)

(** X4: loading a list of paths is loading its first part and then, from
    the memory that leaves, the rest; a failure in the first part is the
    failure of the whole, and nothing of the rest is loaded. *)
Theorem load_images_app {T} `{Host T} (pre post : list string) (m : list Z) :
  load_images (pre ++ post) m =
    match load_images pre m with
    | inr m' => load_images post m'
    | inl p => inl p
    end.
Proof.
  revert m. induction pre as [|p pre IH]; intros m; simpl; [done|].
  destruct (read_image p m); [apply IH|done].
Qed.

(** X5: the loads fail with path [p] exactly when [p] is the first path
    that [read_image] rejects: every path before it loaded, one after
    the other, and [p] is rejected in the memory they left. *)
Theorem load_images_first_failure {T} `{Host T} (paths : list string)
  (m0 : list Z) (p : string) :
  load_images paths m0 = inl p <->
  exists pre post m,
    paths = pre ++ p :: post /\
    load_images pre m0 = inr m /\
    read_image p m = None.
Proof.
  split; [apply load_images_inl_split|].
  intros (pre & post & m & -> & Hpre & Hp).
  by apply (load_images_fails pre p post m0 m).
Qed.

(** ** [main] up to the loop *)

(** X6: when [main] exits before the loop, it is either with status 2
    and the usage text, for fewer than two arguments, or with status 1
    and the message naming the first path that failed to load; it never
    exits there with status 0. *)
Theorem startup_exit_cases {T} `{Host T} (argv : list string) (t : T)
  (e : exit_report T) :
  startup argv t = inl e ->
  ((length argv < 2)%nat /\ e = Exit 2 (print usage_text t)) \/
  ((2 <= length argv)%nat /\
   exists pre p post m,
     drop 1 argv = pre ++ p :: post /\
     load_images pre memory_zero = inr m /\
     read_image p m = None /\
     e = Exit 1 (print (load_failure_text p) t)).
Proof. apply startup_inl_cases. Qed.

Lemma startup_exit_cases_witness :
  ((length ["lc3"; "nope.obj"]%string < 2)%nat /\
   Exit 1 (print (load_failure_text "nope.obj") Demo.tty0) =
     Exit 2 (print usage_text Demo.tty0)) \/
  ((2 <= length ["lc3"; "nope.obj"]%string)%nat /\
   exists pre p post m,
     drop 1 ["lc3"; "nope.obj"]%string = pre ++ p :: post /\
     load_images pre memory_zero = inr m /\
     read_image p m = None /\
     Exit 1 (print (load_failure_text "nope.obj") Demo.tty0) =
       Exit 1 (print (load_failure_text p) Demo.tty0)).
Proof.
  apply (startup_exit_cases ["lc3"; "nope.obj"]%string Demo.tty0).
  reflexivity.
Defined.

(** X7: when [main] reaches the loop there were at least two arguments,
    every path loaded, the machine holds exactly the memory the loads
    left, with the registers of the boot assignments, and it has
    [R_COUNT] registers and [MEMORY_MAX] cells of 16 bits. *)
Theorem startup_enters_loop {T} `{Host T} (argv : list string) (t : T)
  (s0 : machine T) :
  startup argv t = inr s0 ->
  (2 <= length argv)%nat /\
  load_images (drop 1 argv) memory_zero = inr (memory s0) /\
  s0 = boot (memory s0) t /\
  wf s0.
Proof.
  intros E. destruct (startup_inr_boot argv t s0 E) as (Hlen & Hload & Hboot).
  split_and!; try done. by eapply startup_wf.
Qed.

Lemma startup_enters_loop_witness :
  exists s0,
    startup ["lc3"; "halt.obj"]%string Demo.tty0 = inr s0 /\
    (2 <= length ["lc3"; "halt.obj"]%string)%nat /\
    s0 = boot (memory s0) Demo.tty0 /\
    wf s0.
Proof.
  eexists. split; [reflexivity|].
  edestruct (startup_enters_loop ["lc3"; "halt.obj"]%string Demo.tty0)
    as (Hlen & _ & Hboot & Hwf); [reflexivity|].
  split_and!; [exact Hlen|exact Hboot|exact Hwf].
Defined.

(** ** The fetch *)

(** X8: when the PC does not hold the keyboard-status address, the fetch
    returns the cell at the PC and changes nothing but the PC register,
    which moves on by one modulo 2^16. *)
Theorem fetch_away_from_keyboard {T} `{Host T} (s : machine T) :
  wf s -> regv s R_PC <> MR_KBSR ->
  fetch s =
    Some (cellv s (regv s R_PC), set_pc s (wrap16 (regv s R_PC + 1))).
Proof.
  intros Hwf Hne. destruct (fetch_total s Hwf) as (instr & s1 & E).
  destruct (wp_inv _ _ _ _ _ (fetch_spec s Hwf) E)
    as (_ & _ & _ & _ & _ & _ & Hval & Hsame).
  rewrite E. specialize (Hsame Hne). subst s1. by rewrite Hval.
Qed.

Lemma fetch_away_from_keyboard_witness :
  fetch (Demo.one_instr 0xF025) =
    Some (cellv (Demo.one_instr 0xF025) (regv (Demo.one_instr 0xF025) R_PC),
          set_pc (Demo.one_instr 0xF025)
                 (wrap16 (regv (Demo.one_instr 0xF025) R_PC + 1))).
Proof.
  apply (fetch_away_from_keyboard (Demo.one_instr 0xF025)).
  - apply one_instr_wf, word16_literal. reflexivity.
  - discriminate.
Defined.

(** ** The loop as written *)

(** X9: with the case bodies as they stand in src/lc3.c, the loop never
    ends: after any number of iterations from a running machine it is
    still running, no fault is recorded, the PC has advanced by that
    number modulo 2^16, and R0 to R7 and COND hold what they held. *)
Theorem loop_as_written_never_exits {T} `{Host T} (fuel : nat)
  (s : machine T) :
  wf s -> running s = true ->
  exists s',
    run_as_written fuel s = OutOfFuel s' /\
    wf s' /\ running s' = true /\ fault s' = fault s /\
    regv s' R_PC = wrap16 (regv s R_PC + Z.of_nat fuel) /\
    (forall r, 0 <= r < R_COUNT -> r <> R_PC -> regv s' r = regv s r).
Proof. apply run_as_written_stays. Qed.

Lemma loop_as_written_never_exits_witness :
  exists s',
    run_as_written 2 (Demo.one_instr 0xF025) = OutOfFuel s' /\
    running s' = true /\ regv s' R_PC = 0x3002.
Proof.
  destruct (loop_as_written_never_exits 2 (Demo.one_instr 0xF025))
    as (s' & Erun & _ & Hrun & _ & Hpc & _).
  - apply one_instr_wf, word16_literal. reflexivity.
  - reflexivity.
  - exists s'. split_and!; [exact Erun|exact Hrun|exact Hpc].
Defined.

(** X10: [main] as written exits only before the loop, with status 1 or
    2; once it has entered the loop it neither returns nor indexes an
    array out of bounds, however many iterations are allowed. *)
Theorem main_as_written_outcomes {T} `{Host T} (fuel : nat)
  (argv : list string) (t : T) :
  (forall e, startup argv t = inl e ->
     main_as_written fuel argv t = Exited e /\
     (status e = 1 \/ status e = 2)) /\
  (forall s0, startup argv t = inr s0 ->
     exists s, main_as_written fuel argv t = StillRunning s /\
               running s = true /\ fault s = None).
Proof.
  split.
  - intros e E. unfold main_as_written. rewrite E. split; [done|].
    destruct (startup_inl_cases argv t e E)
      as [(_ & ->) | (_ & pre & p & post & m & _ & _ & _ & ->)]; auto.
  - intros s0 E. pose proof (startup_wf _ _ _ E) as Hwf.
    destruct (startup_inr_boot argv t s0 E) as (_ & _ & Hboot).
    assert (Hrun : running s0 = true) by (by rewrite Hboot).
    assert (Hflt : fault s0 = None) by (by rewrite Hboot).
    destruct (run_as_written_stays fuel s0 Hwf Hrun)
      as (s & Erun & _ & Hrun' & Hflt' & _).
    exists s. unfold main_as_written. rewrite E, Erun.
    split_and!; [done|done|congruence].
Qed.

Lemma main_as_written_outcomes_witness :
  main_as_written 5 ["lc3"]%string Demo.tty0 =
    Exited (Exit 2 (print usage_text Demo.tty0)) /\
  exists s,
    main_as_written 5 ["lc3"; "halt.obj"]%string Demo.tty0 = StillRunning s /\
    running s = true /\ fault s = None.
Proof.
  split.
  - destruct (main_as_written_outcomes 5 ["lc3"]%string Demo.tty0) as (Hexit & _).
    apply (Hexit (Exit 2 (print usage_text Demo.tty0))). reflexivity.
  - destruct (main_as_written_outcomes 5 ["lc3"; "halt.obj"]%string Demo.tty0)
      as (_ & Hloop).
    eapply Hloop. reflexivity.
Defined.
